(** * Sockets: the socket parameter enumerations

    The repository consists of three C headers,

      - [Sources/AddressFamily/include/AddressFamily.h]
      - [Sources/SocketType/include/SocketType.h]
      - [Sources/IPProtocol/include/IPProtocol.h]

    each declaring one enumeration of the shape

      [typedef enum __attribute__((enum_extensibility(open))) : int32_t {
           name = OS_MACRO, ...
       } Name;]

    There are no functions.  What is embedded here is therefore

      - the fixed underlying type [int32_t] (module [Int32]),
      - the operating-system macros the enumerators are bound to, as a
        record of integers supplied by the platform ([Headers]),
      - the three enumeration types with their enumerators, and
      - the three operations the C language gives every such type:
        conversion from an integer, conversion to an integer, and [==]. *)

From Stdlib Require Import ZArith Bool List Lia Eqdep_dec.
Import ListNotations.
Local Open Scope Z_scope.

(** ** The underlying type [int32_t]

    A value is an integer of the interval [-2^31, 2^31 - 1].  Conversion of
    an arbitrary integer reduces it modulo [2^32] into that interval (two's
    complement, which is what clang does on every target). *)

Module Int32.

Definition wordsize : Z := 32.
Definition modulus : Z := 2 ^ wordsize.
Definition half_modulus : Z := 2 ^ (wordsize - 1).
Definition min_signed : Z := - half_modulus.
Definition max_signed : Z := half_modulus - 1.

(** [in_range z]: [z] is representable in [int32_t]. *)
Definition in_range (z : Z) : bool :=
  (min_signed <=? z) && (z <=? max_signed).

(** Two's complement reduction of any integer to the signed interval. *)
Definition wrap (z : Z) : Z :=
  (z + half_modulus) mod modulus - half_modulus.

Lemma modulus_val : modulus = 4294967296.
Proof. reflexivity. Qed.

Lemma half_modulus_val : half_modulus = 2147483648.
Proof. reflexivity. Qed.

Lemma in_range_spec (z : Z) :
  in_range z = true <-> -2147483648 <= z <= 2147483647.
Proof.
  unfold in_range, min_signed, max_signed.
  rewrite half_modulus_val, andb_true_iff, !Z.leb_le. lia.
Qed.

Lemma wrap_in_range (z : Z) : in_range (wrap z) = true.
Proof.
  apply in_range_spec. unfold wrap.
  rewrite half_modulus_val, modulus_val.
  pose proof (Z.mod_pos_bound (z + 2147483648) 4294967296 eq_refl).
  lia.
Qed.

(** An [int32_t]: the integer together with the evidence that it fits.  The
    evidence is an equation between booleans, so two values with the same
    integer are the same value ([int_ext] below). *)
Record int : Set := mkint {
  signed : Z;
  signed_range : in_range signed = true
}.

(** Integer conversion to [int32_t]. *)
Definition repr (z : Z) : int := mkint (wrap z) (wrap_in_range z).

(** [x == y] on [int32_t]. *)
Definition eqb (x y : int) : bool := signed x =? signed y.

Lemma wrap_small (z : Z) : in_range z = true -> wrap z = z.
Proof.
  intros Hz. apply in_range_spec in Hz. unfold wrap.
  rewrite half_modulus_val, modulus_val.
  rewrite Z.mod_small by lia. lia.
Qed.

Lemma wrap_congruent (z : Z) : (wrap z - z) mod modulus = 0.
Proof.
  unfold wrap. rewrite half_modulus_val, modulus_val.
  pose proof (Z.div_mod (z + 2147483648) 4294967296 ltac:(lia)) as Hdm.
  replace ((z + 2147483648) mod 4294967296 - 2147483648 - z)
    with (- ((z + 2147483648) / 4294967296) * 4294967296) by lia.
  apply Z.mod_mul. lia.
Qed.

Lemma int_ext (x y : int) : signed x = signed y -> x = y.
Proof.
  destruct x as [a Ha], y as [b Hb]. simpl. intros ->.
  f_equal. apply UIP_dec. apply bool_dec.
Qed.

Lemma signed_repr (z : Z) : in_range z = true -> signed (repr z) = z.
Proof. intros Hz. simpl. now apply wrap_small. Qed.

Lemma repr_signed (x : int) : repr (signed x) = x.
Proof. apply int_ext. simpl. apply wrap_small, signed_range. Qed.

Lemma signed_bounds (x : int) : -2147483648 <= signed x <= 2147483647.
Proof. apply in_range_spec, signed_range. Qed.

Lemma eqb_eq (x y : int) : eqb x y = true <-> x = y.
Proof.
  unfold eqb. rewrite Z.eqb_eq. split.
  - apply int_ext.
  - now intros ->.
Qed.

Lemma eq_dec (x y : int) : {x = y} + {x <> y}.
Proof.
  destruct (eqb x y) eqn:Heq.
  - left. now apply eqb_eq.
  - right. intros H. apply eqb_eq in H. congruence.
Defined.

End Int32.

(** ** The platform headers

    The enumerators are bound to macros of the operating system's headers
    ([<sys/sockio.h>], [<netinet/in.h>] and what they pull in).  The
    repository does not define them: their values are an input of the
    declarations, one integer constant per macro. *)

Record Headers : Set := mkHeaders {
  AF_UNIX : Z;
  AF_INET : Z;
  AF_INET6 : Z;
  AF_LINK : Z;
  SOCK_STREAM : Z;
  SOCK_DGRAM : Z;
  SOCK_RAW : Z;
  SOCK_SEQPACKET : Z;
  IPPROTO_TCP : Z;
  IPPROTO_UDP : Z;
  IPPROTO_ICMP : Z;
  IPPROTO_ICMPV6 : Z
}.

(** A sample platform, used where a theorem is instantiated at a concrete
    input.  Its numbers are the ones Darwin's SDK is known for
    ([AF_UNIX 1], [AF_INET 2], [AF_LINK 18], [AF_INET6 30]; [SOCK_STREAM 1],
    [SOCK_DGRAM 2], [SOCK_RAW 3], [SOCK_SEQPACKET 5]; [IPPROTO_ICMP 1],
    [IPPROTO_TCP 6], [IPPROTO_UDP 17], [IPPROTO_ICMPV6 58]).  Neither the
    repository nor its specification fixes them, and no theorem depends on
    their being the values of any actual platform. *)
Definition darwin : Headers := {|
  AF_UNIX := 1;
  AF_INET := 2;
  AF_INET6 := 30;
  AF_LINK := 18;
  SOCK_STREAM := 1;
  SOCK_DGRAM := 2;
  SOCK_RAW := 3;
  SOCK_SEQPACKET := 5;
  IPPROTO_TCP := 6;
  IPPROTO_UDP := 17;
  IPPROTO_ICMP := 1;
  IPPROTO_ICMPV6 := 58
|}.


(** ** The three enumerations *)

(** [__attribute__((enum_extensibility(...)))]: an [open] enumeration may
    hold any value of its underlying type, a [closed] one only the values of
    its enumerators. *)
Inductive Extensibility : Set := open | closed.

(** The three [typedef] names. *)
Inductive Enum : Set := AddressFamily | SocketType | IPProtocol.

(** All three declarations carry [enum_extensibility(open)]. *)
Definition extensibility (E : Enum) : Extensibility :=
  match E with
  | AddressFamily => open
  | SocketType => open
  | IPProtocol => open
  end.

(** A value of the enumeration [E].  All three declarations fix the
    underlying type with [: int32_t], so a value is an [int32_t]; the index
    [E] keeps the three types apart. *)
Record value (E : Enum) : Set := Value { repr_of : Int32.int }.

Arguments Value E _ : clear implicits.
Arguments repr_of {E} _.

Coercion value : Enum >-> Sortclass.

(** Conversion of an integer to the enumeration type, [(E)n]: the integer
    is converted to the underlying type and nothing else happens. *)
Definition init_rawValue (E : Enum) (n : Z) : E := Value E (Int32.repr n).

(** Conversion of a value to its integer, [(int32_t)v]. *)
Definition rawValue {E : Enum} (v : E) : Z := Int32.signed (repr_of v).

(** [v == w]: comparison of the two integers. *)
Definition value_eqb {E : Enum} (v w : E) : bool := rawValue v =? rawValue w.

Section Declarations.

Variable os : Headers.

(** [AddressFamily.h] *)
Definition unix : AddressFamily := init_rawValue AddressFamily (AF_UNIX os).
Definition inet : AddressFamily := init_rawValue AddressFamily (AF_INET os).
Definition inet6 : AddressFamily := init_rawValue AddressFamily (AF_INET6 os).
Definition link : AddressFamily := init_rawValue AddressFamily (AF_LINK os).

(** [SocketType.h] *)
Definition stream : SocketType := init_rawValue SocketType (SOCK_STREAM os).
Definition datagram : SocketType := init_rawValue SocketType (SOCK_DGRAM os).
Definition raw : SocketType := init_rawValue SocketType (SOCK_RAW os).
Definition seqpacket : SocketType :=
  init_rawValue SocketType (SOCK_SEQPACKET os).

(** [IPProtocol.h] *)
Definition tcp : IPProtocol := init_rawValue IPProtocol (IPPROTO_TCP os).
Definition udp : IPProtocol := init_rawValue IPProtocol (IPPROTO_UDP os).
Definition icmp : IPProtocol := init_rawValue IPProtocol (IPPROTO_ICMP os).
Definition icmpv6 : IPProtocol :=
  init_rawValue IPProtocol (IPPROTO_ICMPV6 os).

(** The enumerators of each declaration, in the order of the source. *)
Definition enumerators (E : Enum) : list E :=
  match E return list E with
  | AddressFamily => [unix; inet; inet6; link]
  | SocketType => [stream; datagram; raw; seqpacket]
  | IPProtocol => [tcp; udp; icmp; icmpv6]
  end.

(** The constant expressions the enumerators are initialised with. *)
Definition constants (E : Enum) : list Z :=
  match E with
  | AddressFamily => [AF_UNIX os; AF_INET os; AF_INET6 os; AF_LINK os]
  | SocketType =>
      [SOCK_STREAM os; SOCK_DGRAM os; SOCK_RAW os; SOCK_SEQPACKET os]
  | IPProtocol =>
      [IPPROTO_TCP os; IPPROTO_UDP os; IPPROTO_ICMP os; IPPROTO_ICMPV6 os]
  end.

(** With a fixed underlying type the compiler rejects an enumerator whose
    constant is not representable in that type: the three headers compile
    against [os] exactly when every constant fits [int32_t]. *)
Definition well_formed : bool :=
  forallb (fun E => forallb Int32.in_range (constants E))
          [AddressFamily; SocketType; IPProtocol].

(** [recognised E n]: [n] is the constant of some enumerator of [E]. *)
Definition recognised (E : Enum) (n : Z) : bool :=
  existsb (Z.eqb n) (constants E).

(** The enumerators of [E] a raw integer matches. *)
Definition matching (E : Enum) (n : Z) : list E :=
  filter (fun v => rawValue v =? n) (enumerators E).

(** What the extensibility attribute says a value may be. *)
Definition valid {E : Enum} (v : E) : bool :=
  match extensibility E with
  | open => Int32.in_range (rawValue v)
  | closed => existsb (value_eqb v) (enumerators E)
  end.

End Declarations.

Arguments valid os {E} v.

(** ** Basic facts about the three operations *)

Lemma value_ext (E : Enum) (v w : E) : rawValue v = rawValue w -> v = w.
Proof.
  destruct v as [x], w as [y]. unfold rawValue. simpl.
  intros H. f_equal. now apply Int32.int_ext.
Qed.

Lemma rawValue_in_range (E : Enum) (v : E) :
  Int32.in_range (rawValue v) = true.
Proof. apply Int32.signed_range. Qed.

Lemma rawValue_init (E : Enum) (n : Z) :
  Int32.in_range n = true -> rawValue (init_rawValue E n) = n.
Proof.
  intros Hn. unfold rawValue, init_rawValue. simpl.
  now apply Int32.wrap_small.
Qed.

Lemma init_rawValue_rawValue (E : Enum) (v : E) :
  init_rawValue E (rawValue v) = v.
Proof. apply value_ext. apply rawValue_init, rawValue_in_range. Qed.

Lemma value_eqb_eq (E : Enum) (v w : E) : value_eqb v w = true <-> v = w.
Proof.
  unfold value_eqb. rewrite Z.eqb_eq. split.
  - apply value_ext.
  - now intros ->.
Qed.

Lemma value_eqb_neq (E : Enum) (v w : E) : value_eqb v w = false <-> v <> w.
Proof.
  rewrite <- value_eqb_eq. destruct (value_eqb v w); split; congruence.
Qed.

Lemma value_eqb_init (E : Enum) (m n : Z) :
  Int32.in_range m = true -> Int32.in_range n = true ->
  value_eqb (init_rawValue E m) (init_rawValue E n) = (m =? n).
Proof.
  intros Hm Hn. unfold value_eqb. now rewrite !rawValue_init.
Qed.

Lemma open_valid (os : Headers) (E : Enum) (v : E) : valid os v = true.
Proof.
  unfold valid. destruct E; simpl; apply rawValue_in_range.
Qed.

(** ** The declarations against the platform constants *)

Lemma enumerators_constants (os : Headers) (E : Enum) :
  enumerators os E = map (init_rawValue E) (constants os E).
Proof. destruct E; reflexivity. Qed.

Lemma well_formed_constants (os : Headers) :
  well_formed os = true ->
  forall E c, In c (constants os E) -> Int32.in_range c = true.
Proof.
  unfold well_formed. rewrite forallb_forall. intros Hwf E c Hc.
  assert (HE : In E [AddressFamily; SocketType; IPProtocol])
    by (destruct E; simpl; auto).
  specialize (Hwf E HE). rewrite forallb_forall in Hwf. now apply Hwf.
Qed.

Lemma rawValue_enumerators (os : Headers) (E : Enum) :
  well_formed os = true ->
  map rawValue (enumerators os E) = constants os E.
Proof.
  intros Hwf. rewrite enumerators_constants, map_map.
  rewrite <- (map_id (constants os E)) at 2.
  apply map_ext_in. intros c Hc.
  apply rawValue_init. eapply well_formed_constants; eauto.
Qed.

Lemma filter_key_absent {A : Type} (f : A -> Z) (n : Z) (l : list A) :
  ~ In n (map f l) -> filter (fun a => f a =? n) l = [].
Proof.
  induction l as [|a l IH]; simpl; intros Hn; [reflexivity|].
  destruct (Z.eqb_spec (f a) n) as [Heq|Hne].
  - exfalso. apply Hn. now left.
  - apply IH. intros Hin. apply Hn. now right.
Qed.

Lemma filter_key_NoDup {A : Type} (f : A -> Z) (n : Z) (l : list A) :
  NoDup (map f l) ->
  (length (filter (fun a => (f a =? n)%Z) l) <= 1)%nat.
Proof.
  induction l as [|a l IH]; simpl; intros Hnd; [lia|].
  inversion Hnd as [|x xs Hnotin Hnd']; subst.
  destruct (Z.eqb_spec (f a) n) as [Heq|Hne].
  - subst n. rewrite filter_key_absent by assumption. simpl. lia.
  - now apply IH.
Qed.

(** Whenever the platform gives the four macros of an enumeration four
    different values, a raw integer matches at most one enumerator. *)
Lemma matching_at_most_one (os : Headers) (E : Enum) (n : Z) :
  well_formed os = true -> NoDup (constants os E) ->
  (length (matching os E n) <= 1)%nat.
Proof.
  intros Hwf Hnd. unfold matching. apply filter_key_NoDup.
  now rewrite rawValue_enumerators.
Qed.

(** Comparison with an enumerator is comparison with its constant. *)
Lemma value_eqb_constant (os : Headers) (E : Enum) (n c : Z) :
  well_formed os = true -> Int32.in_range n = true ->
  In c (constants os E) ->
  value_eqb (init_rawValue E n) (init_rawValue E c) = (n =? c).
Proof.
  intros Hwf Hn Hc. apply value_eqb_init; [assumption|].
  eapply well_formed_constants; eauto.
Qed.


(** ** Concrete checks *)

Example init_9999 : rawValue (init_rawValue IPProtocol 9999) = 9999.
Proof. reflexivity. Qed.

Example init_negative : rawValue (init_rawValue SocketType (-1)) = -1.
Proof. reflexivity. Qed.

(** Outside [int32_t] the conversion wraps: the round trip is the identity
    on the 32-bit integers only. *)
Example init_wraps :
  rawValue (init_rawValue AddressFamily 2147483648) = -2147483648.
Proof. reflexivity. Qed.

Example darwin_inet6 : rawValue (inet6 darwin) = 30.
Proof. reflexivity. Qed.

(** The scenarios of the specification:
    [AddressFamily(rawValue: AF_INET) == AddressFamily.inet] and
    [SocketType(rawValue: SOCK_DGRAM) == SocketType.datagram], on every
    platform. *)
Lemma scenario_inet (os : Headers) :
  value_eqb (init_rawValue AddressFamily (AF_INET os)) (inet os) = true.
Proof. now apply value_eqb_eq. Qed.

Lemma scenario_datagram (os : Headers) :
  value_eqb (init_rawValue SocketType (SOCK_DGRAM os)) (datagram os) = true.
Proof. now apply value_eqb_eq. Qed.

Lemma scenario_inet6_roundtrip (os : Headers) :
  rawValue (init_rawValue AddressFamily (rawValue (inet6 os)))
  = rawValue (inet6 os).
Proof. now rewrite init_rawValue_rawValue. Qed.

(** ** The claims *)

Section Claims.

Variable os : Headers.

(** The headers compile against [os]. *)
Hypothesis os_ok : well_formed os = true.

Local Ltac constant_of E :=
  apply rawValue_init;
  apply (well_formed_constants os os_ok E); simpl; tauto.

(** C1. For each of the three enumerations and every named variant, the raw
    integer of the variant is the platform's constant for it: [unix] is
    [AF_UNIX], [inet] is [AF_INET], [inet6] is [AF_INET6], [link] is
    [AF_LINK]; [stream] is [SOCK_STREAM], [datagram] is [SOCK_DGRAM], [raw]
    is [SOCK_RAW], [seqpacket] is [SOCK_SEQPACKET]; [tcp] is [IPPROTO_TCP],
    [udp] is [IPPROTO_UDP], [icmp] is [IPPROTO_ICMP], [icmpv6] is
    [IPPROTO_ICMPV6].  This holds on every platform whose constants the
    compiler accepts as [int32_t] enumerators. *)
Theorem named_variant_is_os_constant :
  (rawValue (unix os) = AF_UNIX os /\
   rawValue (inet os) = AF_INET os /\
   rawValue (inet6 os) = AF_INET6 os /\
   rawValue (link os) = AF_LINK os) /\
  (rawValue (stream os) = SOCK_STREAM os /\
   rawValue (datagram os) = SOCK_DGRAM os /\
   rawValue (raw os) = SOCK_RAW os /\
   rawValue (seqpacket os) = SOCK_SEQPACKET os) /\
  (rawValue (tcp os) = IPPROTO_TCP os /\
   rawValue (udp os) = IPPROTO_UDP os /\
   rawValue (icmp os) = IPPROTO_ICMP os /\
   rawValue (icmpv6 os) = IPPROTO_ICMPV6 os).
Proof.
  repeat split.
  1-4: constant_of AddressFamily.
  1-4: constant_of SocketType.
  all: constant_of IPProtocol.
Qed.

(** C6. Constructing an [IPProtocol] from 9999, a number that is the
    constant of no enumerator, gives a value whose raw integer is 9999 and
    which compares unequal to [tcp], [udp], [icmp] and [icmpv6]. *)
Theorem unrecognised_protocol_9999 :
  recognised os IPProtocol 9999 = false ->
  rawValue (init_rawValue IPProtocol 9999) = 9999 /\
  value_eqb (init_rawValue IPProtocol 9999) (tcp os) = false /\
  value_eqb (init_rawValue IPProtocol 9999) (udp os) = false /\
  value_eqb (init_rawValue IPProtocol 9999) (icmp os) = false /\
  value_eqb (init_rawValue IPProtocol 9999) (icmpv6 os) = false /\
  ~ In (init_rawValue IPProtocol 9999) (enumerators os IPProtocol).
Proof.
  intros Hun.
  assert (Hne : forall c, In c (constants os IPProtocol) ->
                value_eqb (init_rawValue IPProtocol 9999)
                          (init_rawValue IPProtocol c) = false).
  { intros c Hc. rewrite (value_eqb_constant os) by (auto; reflexivity).
    unfold recognised in Hun.
    destruct (9999 =? c) eqn:Heq; [|reflexivity].
    rewrite <- Hun. symmetry. apply existsb_exists. now exists c. }
  split; [reflexivity|].
  repeat split; try (apply Hne; simpl; tauto).
  rewrite enumerators_constants, in_map_iff. intros (c & Hc & Hin).
  specialize (Hne c Hin). apply value_eqb_neq in Hne. congruence.
Qed.

End Claims.

(** C1 on Darwin's constants. *)
Lemma named_variant_is_os_constant_darwin :
  well_formed darwin = true /\
  (rawValue (unix darwin) = 1 /\ rawValue (inet darwin) = 2 /\
   rawValue (inet6 darwin) = 30 /\ rawValue (link darwin) = 18) /\
  (rawValue (stream darwin) = 1 /\ rawValue (datagram darwin) = 2 /\
   rawValue (raw darwin) = 3 /\ rawValue (seqpacket darwin) = 5) /\
  (rawValue (tcp darwin) = 6 /\ rawValue (udp darwin) = 17 /\
   rawValue (icmp darwin) = 1 /\ rawValue (icmpv6 darwin) = 58).
Proof.
  split; [reflexivity|].
  apply (named_variant_is_os_constant darwin). reflexivity.
Defined.

(** C6 on Darwin's constants, none of which is 9999. *)
Lemma unrecognised_protocol_9999_darwin :
  well_formed darwin = true /\
  recognised darwin IPProtocol 9999 = false /\
  rawValue (init_rawValue IPProtocol 9999) = 9999 /\
  value_eqb (init_rawValue IPProtocol 9999) (tcp darwin) = false /\
  value_eqb (init_rawValue IPProtocol 9999) (udp darwin) = false /\
  value_eqb (init_rawValue IPProtocol 9999) (icmp darwin) = false /\
  value_eqb (init_rawValue IPProtocol 9999) (icmpv6 darwin) = false /\
  ~ In (init_rawValue IPProtocol 9999) (enumerators darwin IPProtocol).
Proof.
  split; [reflexivity|]. split; [reflexivity|].
  apply (unrecognised_protocol_9999 darwin); reflexivity.
Defined.

(** C2. For each of the three enumerations and every 32-bit signed integer
    [n], constructing a value from [n] and reading its raw integer back
    gives [n]. *)
Theorem int_value_int_roundtrip (E : Enum) (n : Z) :
  Int32.in_range n = true -> rawValue (init_rawValue E n) = n.
Proof. apply rawValue_init. Qed.

Lemma int_value_int_roundtrip_min :
  Int32.in_range (-2147483648) = true /\
  rawValue (init_rawValue SocketType (-2147483648)) = -2147483648.
Proof.
  split; [reflexivity|].
  apply (int_value_int_roundtrip SocketType (-2147483648)). reflexivity.
Defined.

(** C3. For each of the three enumerations and all 32-bit signed integers
    [m] and [n], the values constructed from [m] and from [n] compare equal
    exactly when [m = n]; and they are then the same value. *)
Theorem equality_is_integer_equality (E : Enum) (m n : Z) :
  Int32.in_range m = true -> Int32.in_range n = true ->
  (value_eqb (init_rawValue E m) (init_rawValue E n) = true <-> m = n) /\
  (value_eqb (init_rawValue E m) (init_rawValue E n) = false <-> m <> n) /\
  (init_rawValue E m = init_rawValue E n <-> m = n).
Proof.
  intros Hm Hn. rewrite value_eqb_init by assumption.
  split; [apply Z.eqb_eq|]. split; [apply Z.eqb_neq|].
  rewrite <- value_eqb_eq, value_eqb_init by assumption. apply Z.eqb_eq.
Qed.

Lemma equality_is_integer_equality_2_30 :
  value_eqb (init_rawValue AddressFamily 2) (init_rawValue AddressFamily 30)
  = false.
Proof.
  apply (equality_is_integer_equality AddressFamily 2 30);
    [reflexivity | reflexivity | lia].
Defined.

(** C4. For each of the three enumerations, construction from any 32-bit
    signed integer returns a value: it carries that integer and it is a
    value the declaration allows, whether or not the integer is the constant
    of an enumerator.  No operation has an error result. *)
Theorem construction_never_fails (os : Headers) (E : Enum) (n : Z) :
  Int32.in_range n = true ->
  exists v : E,
    init_rawValue E n = v /\ rawValue v = n /\ valid os v = true.
Proof.
  intros Hn. exists (init_rawValue E n).
  split; [reflexivity|]. split; [now apply rawValue_init|].
  apply open_valid.
Qed.

Lemma construction_never_fails_unnamed :
  recognised darwin AddressFamily 9999 = false /\
  exists v : AddressFamily,
    init_rawValue AddressFamily 9999 = v /\ rawValue v = 9999 /\
    valid darwin v = true.
Proof.
  split; [reflexivity|].
  apply (construction_never_fails darwin AddressFamily 9999). reflexivity.
Defined.

(** C5. The underlying type of each of the three enumerations is the 32-bit
    signed integer: the raw integer of every value lies between [-2^31] and
    [2^31 - 1], and converting it to [int32_t] loses nothing (it gives back
    the representation of the value). *)
Theorem underlying_type_is_int32 (E : Enum) (v : E) :
  -2147483648 <= rawValue v <= 2147483647 /\
  Int32.repr (rawValue v) = repr_of v /\
  Int32.signed (Int32.repr (rawValue v)) = rawValue v.
Proof.
  split; [apply Int32.signed_bounds|].
  split; [apply Int32.repr_signed|].
  unfold rawValue. now rewrite Int32.repr_signed.
Qed.




(** C9. For each of the three enumerations, constructing a value from the
    raw integer of a value [v] gives [v] back; the value-to-integer
    conversion is injective, its image is the 32-bit signed integers, and
    every 32-bit signed integer is the raw integer of a value. *)
Theorem value_int_value_roundtrip (E : Enum) :
  (forall v : E, init_rawValue E (rawValue v) = v) /\
  (forall v w : E, rawValue v = rawValue w -> v = w) /\
  (forall v : E, Int32.in_range (rawValue v) = true) /\
  (forall n : Z, Int32.in_range n = true -> exists v : E, rawValue v = n).
Proof.
  split; [apply init_rawValue_rawValue|].
  split; [apply value_ext|].
  split; [apply rawValue_in_range|].
  intros n Hn. exists (init_rawValue E n). now apply rawValue_init.
Qed.

Lemma value_int_value_roundtrip_icmpv6 :
  init_rawValue IPProtocol (rawValue (icmpv6 darwin)) = icmpv6 darwin.
Proof.
  exact (proj1 (value_int_value_roundtrip IPProtocol) (icmpv6 darwin)).
Defined.

(** ** Further properties of the declarations *)

Lemma wrap_eq_iff (m n : Z) :
  Int32.wrap m = Int32.wrap n <-> (m - n) mod 4294967296 = 0.
Proof.
  unfold Int32.wrap. rewrite Int32.half_modulus_val, Int32.modulus_val.
  replace (m - n) with (m + 2147483648 - (n + 2147483648)) by lia.
  rewrite <- Z.cong_iff_0. lia.
Qed.

Lemma filter_key_present {A : Type} (f : A -> Z) (n : Z) (l : list A) :
  In n (map f l) ->
  (1 <= length (filter (fun a => (f a =? n)%Z) l))%nat.
Proof.
  induction l as [|a l IH]; simpl; intros Hin; [contradiction|].
  destruct (Z.eqb_spec (f a) n) as [Heq|Hne]; simpl; [lia|].
  destruct Hin as [Heq|Hin]; [contradiction|]. now apply IH.
Qed.

Lemma filter_key_unique {A : Type} (f : A -> Z) (l : list A) :
  (forall n, (length (filter (fun a => (f a =? n)%Z) l) <= 1)%nat) ->
  NoDup (map f l).
Proof.
  induction l as [|a l IH]; simpl; intros Hone; [apply NoDup_nil|].
  apply NoDup_cons.
  - intros Hin. specialize (Hone (f a)). rewrite Z.eqb_refl in Hone.
    apply (filter_key_present f (f a) l) in Hin. simpl in Hone. lia.
  - apply IH. intros n. specialize (Hone n).
    destruct (f a =? n); simpl in Hone; lia.
Qed.

Lemma value_eq_dec (E : Enum) (v w : E) : {v = w} + {v <> w}.
Proof.
  destruct (value_eqb v w) eqn:Heq.
  - left. now apply value_eqb_eq.
  - right. now apply value_eqb_neq.
Defined.

Lemma enumerators_length (os : Headers) (E : Enum) :
  length (enumerators os E) = 4%nat.
Proof. destruct E; reflexivity. Qed.

(** X1. On a platform whose headers compile, an enumeration is unambiguous
    (no raw integer matches two of its enumerators) exactly when the
    platform gives its four macros four different values: the declarations
    add no collision of their own and hide none of the platform's. *)
Theorem unambiguous_iff_constants_distinct (os : Headers) (E : Enum) :
  well_formed os = true ->
  (forall n : Z, (length (matching os E n) <= 1)%nat) <->
  NoDup (constants os E).
Proof.
  intros Hwf. split.
  - intros Hone. rewrite <- (rawValue_enumerators os E Hwf).
    apply filter_key_unique. exact Hone.
  - intros Hnd n. now apply matching_at_most_one.
Qed.

Lemma unambiguous_iff_constants_distinct_darwin :
  (forall n : Z, (length (matching darwin SocketType n) <= 1)%nat) <->
  NoDup (constants darwin SocketType).
Proof.
  apply (unambiguous_iff_constants_distinct darwin SocketType). reflexivity.
Defined.

(** X2. On a platform whose headers compile, a value is one of the named
    variants of its enumeration exactly when its raw integer is one of the
    platform's constants for that enumeration, and testing it with [==]
    against the four enumerators is testing its raw integer against the four
    constants. *)
Theorem named_iff_raw_is_constant (os : Headers) (E : Enum) (v : E) :
  well_formed os = true ->
  (In v (enumerators os E) <-> In (rawValue v) (constants os E)) /\
  existsb (value_eqb v) (enumerators os E) = recognised os E (rawValue v).
Proof.
  intros Hwf.
  assert (Hin : In v (enumerators os E) <-> In (rawValue v) (constants os E)).
  { rewrite <- (rawValue_enumerators os E Hwf), in_map_iff. split.
    - intros Hv. now exists v.
    - intros (w & Hw & Hwin). apply value_ext in Hw. now subst w. }
  split; [exact Hin|].
  unfold recognised.
  destruct (existsb (Z.eqb (rawValue v)) (constants os E)) eqn:Hrec.
  - apply existsb_exists in Hrec. destruct Hrec as (c & Hc & Heq).
    apply Z.eqb_eq in Heq. rewrite <- Heq in Hc. apply Hin in Hc.
    apply existsb_exists. exists v. split; [assumption|].
    now apply value_eqb_eq.
  - destruct (existsb (value_eqb v) (enumerators os E)) eqn:Hex;
      [|reflexivity].
    apply existsb_exists in Hex. destruct Hex as (w & Hw & Heq).
    apply value_eqb_eq in Heq. subst w. apply Hin in Hw.
    rewrite <- Hrec. symmetry. apply existsb_exists.
    exists (rawValue v). split; [assumption|apply Z.eqb_refl].
Qed.

Lemma named_iff_raw_is_constant_darwin_30 :
  In (init_rawValue AddressFamily 30) (enumerators darwin AddressFamily).
Proof.
  apply (named_iff_raw_is_constant darwin AddressFamily
           (init_rawValue AddressFamily 30)); [reflexivity|].
  simpl. tauto.
Defined.

(** X3. Two integers of any size construct the same value exactly when they
    differ by a multiple of [2^32], and the raw integer of the constructed
    value differs from the integer given by a multiple of [2^32]: outside
    the 32-bit signed range construction wraps around instead of failing. *)
Theorem construction_wraps_modulo (E : Enum) (m n : Z) :
  (init_rawValue E m = init_rawValue E n <-> (m - n) mod 4294967296 = 0) /\
  (rawValue (init_rawValue E n) - n) mod 4294967296 = 0.
Proof.
  split.
  - rewrite <- wrap_eq_iff. split.
    + intros H. apply (f_equal rawValue) in H. exact H.
    + intros H. apply value_ext. exact H.
  - apply Int32.wrap_congruent.
Qed.

(** X4. On every platform each of the three enumerations has a value that is
    none of its named variants, already among the raw integers 0 to 4, and
    that value is one the declaration allows: matching on the named variants
    alone is never exhaustive. *)
Theorem named_variants_not_exhaustive (os : Headers) (E : Enum) :
  exists n : Z,
    0 <= n <= 4 /\
    ~ In (init_rawValue E n) (enumerators os E) /\
    valid os (init_rawValue E n) = true.
Proof.
  set (cands := [0; 1; 2; 3; 4]).
  destruct (Forall_dec (fun n => In (init_rawValue E n) (enumerators os E))
              (fun n => in_dec (value_eq_dec E) (init_rawValue E n)
                               (enumerators os E)) cands) as [Hall|Hnot].
  - exfalso.
    assert (Hnd : NoDup (map (init_rawValue E) cands)).
    { apply (NoDup_map_inv rawValue). simpl.
      repeat (apply NoDup_cons; [simpl; intuition discriminate|]).
      apply NoDup_nil. }
    assert (Hincl : incl (map (init_rawValue E) cands) (enumerators os E)).
    { intros v Hv. apply in_map_iff in Hv. destruct Hv as (n & <- & Hn).
      rewrite Forall_forall in Hall. now apply Hall. }
    pose proof (NoDup_incl_length Hnd Hincl) as Hlen.
    rewrite enumerators_length in Hlen. simpl in Hlen. lia.
  - apply neg_Forall_Exists_neg in Hnot.
    + apply Exists_exists in Hnot. destruct Hnot as (n & Hn & Hout).
      exists n. split; [|split; [exact Hout|apply open_valid]].
      simpl in Hn. lia.
    + intros n. apply in_dec, value_eq_dec.
Qed.
